(** * prepare_env.py: preparing a Pyodide runtime

    A shallow embedding of [src/prepare_env.py]: the import scanner
    ([find_imports_to_install]), the package installer ([install_imports])
    and the result serializer ([robust_serialize], [dump_result]), followed by
    the properties the specification states about them.

    Python values are an inductive type, host facilities (the import system,
    the package table, micropip, the file system) are the fields of a [Host],
    and code that raises or changes the interpreter is written in a small
    state-and-exception monad over the host's world. *)

From stdpp Require Import gmap strings list pretty.
From Stdlib Require Import SpecFloat.

#[local] Open Scope string_scope.
#[local] Open Scope list_scope.

(** ** Python values *)

(** The values the module handles at run time.  A dict keeps its items in
    insertion order; a set or frozenset is given by its elements in the
    order iteration yields them.  A float is its IEEE 754 datum; the module
    never computes with one.  [PDateTime] is a naive [datetime.datetime].
    [PObject] is an instance of any class that none of the [isinstance]
    tests of [robust_serialize] recognises, given by its class name and
    its identity. *)
Unset Elimination Schemes.
Inductive pyobj : Type :=
  | PNone
  | PBool (b : bool)
  | PInt (n : Z)
  | PFloat (x : spec_float)
  | PStr (s : string)
  | PList (items : list pyobj)
  | PTuple (items : list pyobj)
  | PDict (items : list (pyobj * pyobj))
  | PSet (items : list pyobj)
  | PFrozenSet (items : list pyobj)
  | PDate (year month day : nat)
  | PDateTime (year month day hour minute second microsecond : nat)
  | PObject (cls : string) (ident : positive).
Set Elimination Schemes.

(** Structural induction that reaches the elements of the containers. *)
Section PyobjInd.
Variable P : pyobj → Prop.
Hypothesis HNone : P PNone.
Hypothesis HBool : ∀ b, P (PBool b).
Hypothesis HInt : ∀ n, P (PInt n).
Hypothesis HFloat : ∀ x, P (PFloat x).
Hypothesis HStr : ∀ s, P (PStr s).
Hypothesis HList : ∀ items, Forall P items → P (PList items).
Hypothesis HTuple : ∀ items, Forall P items → P (PTuple items).
Hypothesis HDict :
  ∀ items, Forall (λ kv, P kv.1 ∧ P kv.2) items → P (PDict items).
Hypothesis HSet : ∀ items, Forall P items → P (PSet items).
Hypothesis HFrozenSet : ∀ items, Forall P items → P (PFrozenSet items).
Hypothesis HDate : ∀ y m d, P (PDate y m d).
Hypothesis HDateTime : ∀ y m d hh mi ss us, P (PDateTime y m d hh mi ss us).
Hypothesis HObject : ∀ cls i, P (PObject cls i).

Fixpoint pyobj_ind (obj : pyobj) : P obj :=
  let all :=
    fix all (l : list pyobj) : Forall P l :=
      match l with
      | [] => Forall_nil_2 P
      | x :: l' => Forall_cons_2 P x l' (pyobj_ind x) (all l')
      end in
  let all_items :=
    fix all_items (l : list (pyobj * pyobj))
      : Forall (λ kv, P kv.1 ∧ P kv.2) l :=
      match l with
      | [] => Forall_nil_2 _
      | kv :: l' =>
          Forall_cons_2 (λ kv, P kv.1 ∧ P kv.2) kv l'
            (conj (pyobj_ind kv.1) (pyobj_ind kv.2)) (all_items l')
      end in
  match obj with
  | PNone => HNone
  | PBool b => HBool b
  | PInt n => HInt n
  | PFloat x => HFloat x
  | PStr s => HStr s
  | PList items => HList items (all items)
  | PTuple items => HTuple items (all items)
  | PDict items => HDict items (all_items items)
  | PSet items => HSet items (all items)
  | PFrozenSet items => HFrozenSet items (all items)
  | PDate y m d => HDate y m d
  | PDateTime y m d hh mi ss us => HDateTime y m d hh mi ss us
  | PObject cls i => HObject cls i
  end.
End PyobjInd.

(** The shapes [robust_serialize] tells apart, in the order it tests them. *)
Inductive shape : Type :=
  | Primitive | Sequence | Mapping | SetLike | Temporal | Unrecognized.

Definition shape_of (obj : pyobj) : shape :=
  match obj with
  | PStr _ | PInt _ | PFloat _ | PBool _ | PNone => Primitive
  | PList _ | PTuple _ => Sequence
  | PDict _ => Mapping
  | PSet _ | PFrozenSet _ => SetLike
  | PDate _ _ _ | PDateTime _ _ _ _ _ _ _ => Temporal
  | PObject _ _ => Unrecognized
  end.

(** *** Comparing a str with another object

    [s == other] for a [str] [s]: [str.__eq__] answers only for another
    str; for a list, a dict or anything else both sides decline and the
    comparison falls back to identity, which is false. *)
Definition str_eq (s : string) (other : pyobj) : bool :=
  match other with
  | PStr t => String.eqb s t
  | _ => false
  end.

(** [PStr s in l]: the list's [__contains__] compares [s] with each element. *)
Definition str_in_list (s : string) (l : list pyobj) : bool :=
  existsb (str_eq s) l.

(** *** Dicts with str keys *)

(** [d[k] = v] for a str [k]: an existing key keeps its place and gets the
    new value, a new key goes to the end. *)
Fixpoint dict_setitem (d : list (pyobj * pyobj)) (k : string) (v : pyobj)
  : list (pyobj * pyobj) :=
  match d with
  | [] => [(PStr k, v)]
  | (k', v') :: rest =>
      if str_eq k k' then (k', v) :: rest
      else (k', v') :: dict_setitem rest k v
  end.

(** [d.get(k)] for a str [k]. *)
Fixpoint dict_get (d : list (pyobj * pyobj)) (k : string) : option pyobj :=
  match d with
  | [] => None
  | (k', v') :: rest => if str_eq k k' then Some v' else dict_get rest k
  end.

Definition dict_has (d : list (pyobj * pyobj)) (k : string) : bool :=
  existsb (λ kv, str_eq k kv.1) d.

(** The items of a dict all of whose keys are strs: the keys are strs and no
    two of them are equal (a dict never holds two equal keys). *)
Fixpoint string_keyed (items : list (pyobj * pyobj)) : bool :=
  match items with
  | [] => true
  | (PStr k, _) :: rest => negb (dict_has rest k) && string_keyed rest
  | _ => false
  end.

(** *** ISO 8601 text of dates *)

Definition zero_pad (width : nat) (n : nat) : string :=
  let digits := pretty n in
  String.concat "" (replicate (width - String.length digits) "0") +:+ digits.

(** [datetime.date.isoformat] *)
Definition date_isoformat (year month day : nat) : string :=
  zero_pad 4 year +:+ "-" +:+ zero_pad 2 month +:+ "-" +:+ zero_pad 2 day.

(** [datetime.datetime.isoformat(sep)] of a naive datetime: the fraction is
    printed only when the microsecond is not zero. *)
Definition datetime_isoformat (sep : string)
    (year month day hour minute second microsecond : nat) : string :=
  date_isoformat year month day +:+ sep +:+
  zero_pad 2 hour +:+ ":" +:+ zero_pad 2 minute +:+ ":" +:+ zero_pad 2 second
  +:+ (if Nat.eqb microsecond 0 then "" else "." +:+ zero_pad 6 microsecond).

(** ** Exceptions and results *)

(** The exception classes the module's [except] clauses and its callees
    name, with their place in the built-in hierarchy. *)
Inductive exc_class : Type :=
  | BaseException
  | Exception
  | ImportError
  | ModuleNotFoundError
  | SyntaxError
  | IndentationError
  | TabError
  | AttributeError
  | TypeError
  | ValueError
  | OSError
  | RuntimeError
  | RecursionError
  | OtherException (name : string).

#[global] Instance exc_class_eq_dec : EqDecision exc_class.
Proof. solve_decision. Defined.

(** The direct base class. *)
Definition exc_base (c : exc_class) : option exc_class :=
  match c with
  | BaseException => None
  | Exception => Some BaseException
  | ModuleNotFoundError => Some ImportError
  | IndentationError => Some SyntaxError
  | TabError => Some IndentationError
  | RecursionError => Some RuntimeError
  | _ => Some Exception
  end.

Fixpoint subclass_within (depth : nat) (c cls : exc_class) : bool :=
  bool_decide (c = cls) ||
  match depth, exc_base c with
  | S depth', Some base => subclass_within depth' base cls
  | _, _ => false
  end.

(** [issubclass(c, cls)]; no class above is more than four steps below
    [BaseException]. *)
Definition issubclass (c cls : exc_class) : bool := subclass_within 4 c cls.

(** What a call does: it returns a value or raises an exception. *)
Inductive result (A : Type) : Type :=
  | Returned (a : A)
  | Raised (e : exc_class).
Arguments Returned {A} a.
Arguments Raised {A} e.

Definition result_mapM {A B : Type} (f : A → result B)
  : list A → result (list B) :=
  fix go (l : list A) : result (list B) :=
    match l with
    | [] => Returned []
    | x :: l' =>
        match f x with
        | Raised e => Raised e
        | Returned y =>
            match go l' with
            | Raised e => Raised e
            | Returned ys => Returned (y :: ys)
            end
        end
    end.

(** ** The result serializer *)

Section Serializer.
(** [repr(obj)], and [str(obj)] for the objects whose text is not fixed
    below (floats, containers, instances of other classes): both are
    the interpreter's, and [robust_serialize] only passes their result on. *)
Variable py_repr : pyobj → string.
Variable str_other : pyobj → string.

(** [str(obj)] *)
Definition py_str (obj : pyobj) : string :=
  match obj with
  | PStr s => s
  | PNone => "None"
  | PBool true => "True"
  | PBool false => "False"
  | PInt n => pretty n
  | PDate y m d => date_isoformat y m d
  | PDateTime y m d hh mi ss us => datetime_isoformat " " y m d hh mi ss us
  | _ => str_other obj
  end.

(** [robust_serialize(obj)], lines 102-137.  The [isinstance] tests are
    the constructor cases, in the order of the source.  This is the value of
    a call that returns: whether a call on a deeply nested value returns
    under the recursion limit of line 21 is the interpreter's matter. *)
Fixpoint robust_serialize (obj : pyobj) : pyobj :=
  match obj with
  | PStr _ | PInt _ | PFloat _ | PBool _ | PNone => obj
  | PList items | PTuple items => PList (map robust_serialize items)
  | PDict items =>
      PDict (fold_left
               (λ d kv, dict_setitem d (py_str kv.1) (robust_serialize kv.2))
               items [])
  | PSet items | PFrozenSet items => PList (map robust_serialize items)
  | PDate y m d => PStr (date_isoformat y m d)
  | PDateTime y m d hh mi ss us => PStr (datetime_isoformat "T" y m d hh mi ss us)
  | PObject _ _ =>
      PDict [(PStr "type", PStr "not serializable");
             (PStr "repr", PStr (py_repr obj))]
  end.

(** A value built only from strs, ints, floats, bools, None, lists of such
    values and str-keyed dicts of such values. *)
Fixpoint json_compatible (x : pyobj) : bool :=
  match x with
  | PStr _ | PInt _ | PFloat _ | PBool _ | PNone => true
  | PList items => forallb json_compatible items
  | PDict items =>
      string_keyed items && forallb (λ kv, json_compatible kv.2) items
  | _ => false
  end.

End Serializer.

(** ** JSON documents and the encoder of [json.dump] *)

Unset Elimination Schemes.
Inductive json : Type :=
  | JNull
  | JBool (b : bool)
  | JInt (n : Z)
  | JFloat (x : spec_float)
  | JString (s : string)
  | JArray (elements : list json)
  | JObject (members : list (string * json)).
Set Elimination Schemes.

(** [sys.int_info.default_max_str_digits]: the interpreter refuses to
    write an int of more decimal digits as text.  The module leaves the
    limit as it is. *)
Definition int_max_str_digits : nat := 4300.

(** The decimal text of an int, as [int.__repr__] gives it: [ValueError]
    for an int of more than [int_max_str_digits] digits. *)
Definition int_text (n : Z) : result string :=
  if bool_decide (10 ^ Z.of_nat int_max_str_digits ≤ Z.abs n)%Z
  then Raised ValueError
  else Returned (pretty n).

Section JsonEncoder.
Variable str_other : pyobj → string.

(** The text the encoder writes for a float: the three special values
    have names, any other float is written as [float.__repr__] gives it,
    which is also its [str]. *)
Definition floatstr (x : spec_float) : string :=
  match x with
  | S754_nan => "NaN"
  | S754_infinity false => "Infinity"
  | S754_infinity true => "-Infinity"
  | _ => str_other (PFloat x)
  end.

(** A dict key as a member name: str, float, bool, None and int keys are
    accepted, any other key is a [TypeError] ([skipkeys] is off). *)
Definition json_key (key : pyobj) : result string :=
  match key with
  | PStr s => Returned s
  | PFloat x => Returned (floatstr x)
  | PBool true => Returned "true"
  | PBool false => Returned "false"
  | PNone => Returned "null"
  | PInt n => int_text n
  | _ => Raised TypeError
  end.

(** The default [JSONEncoder]: None, bools, ints, floats and strs, lists
    and tuples, and dicts are encoded; for any other object [default]
    raises [TypeError].  An int is written through [int.__repr__], which
    refuses one of too many digits. *)
Fixpoint json_encode (obj : pyobj) : result json :=
  match obj with
  | PNone => Returned JNull
  | PBool b => Returned (JBool b)
  | PInt n =>
      match int_text n with
      | Returned _ => Returned (JInt n)
      | Raised e => Raised e
      end
  | PFloat x => Returned (JFloat x)
  | PStr s => Returned (JString s)
  | PList items | PTuple items =>
      match result_mapM json_encode items with
      | Returned elements => Returned (JArray elements)
      | Raised e => Raised e
      end
  | PDict items =>
      match
        result_mapM
          (λ kv,
             match json_key kv.1 with
             | Raised e => Raised e
             | Returned name =>
                 match json_encode kv.2 with
                 | Raised e => Raised e
                 | Returned v => Returned (name, v)
                 end
             end)
          items
      with
      | Returned members => Returned (JObject members)
      | Raised e => Raised e
      end
  | _ => Raised TypeError
  end.
End JsonEncoder.

(** ** Computations over a host *)

(** State passing with exceptions: a computation maps the world it starts
    in to what it returns or raises and the world it leaves. *)
Definition M (W A : Type) : Type := W → result A * W.

#[global] Instance M_ret {W : Type} : MRet (M W) :=
  λ A (a : A) (w : W), (Returned a, w).

#[global] Instance M_bind {W : Type} : MBind (M W) :=
  λ A B (k : A → M W B) (m : M W A) (w : W),
    match m w with
    | (Returned a, w') => k a w'
    | (Raised e, w') => (Raised e, w')
    end.

Definition raise {W A : Type} (e : exc_class) : M W A := λ w, (Raised e, w).

(** [try: body / except cls: handler]: the handler runs when the body
    raises an instance of [cls] or of a subclass, in the world the body
    left; any other exception goes on to the caller. *)
Definition try_except {W A : Type} (body : M W A) (cls : exc_class)
    (handler : M W A) : M W A :=
  λ w, match body w with
       | (Returned a, w') => (Returned a, w')
       | (Raised e, w') =>
           if issubclass e cls then handler w' else (Raised e, w')
       end.

(** [for x in l: acc = body(x, acc)] *)
Fixpoint for_each {W A S : Type} (l : list A) (body : A → S → M W S) (acc : S)
  : M W S :=
  match l with
  | [] => mret acc
  | x :: l' => acc' ← body x acc; for_each l' body acc'
  end.

(** Reading an attribute path of a JavaScript proxy: [AttributeError] when
    it does not exist. *)
Definition js_attribute {W A : Type} (read : W → option A) : M W A :=
  λ w, match read w with
       | Some a => (Returned a, w)
       | None => (Raised AttributeError, w)
       end.

(** ** The host *)

(** What the module takes from its surroundings (section 6 of the
    specification).  [world] is the state of the interpreter and of the
    browser around it: the modules that can be imported, the packages
    already loaded, the files. *)
Class Host : Type := {
  world : Type;
  (** [importlib.import_module(name)], also the [import] statement *)
  import_module : string → M world unit;
  (** [find_imports(source)] of pyodide: the names a source text imports,
      or the exception that parsing it raised *)
  find_imports : string → result (list string);
  (** [pyodide_js._module._import_name_to_package_name.to_py()]: [None]
      when the attribute path does not exist *)
  module_import_name_to_package_name : world → option (gmap string string);
  (** [pyodide_js._api._import_name_to_package_name.to_py()] *)
  api_import_name_to_package_name : world → option (gmap string string);
  (** [await pyodide_js.loadPackage(name)] *)
  loadPackage : string → M world unit;
  (** [await micropip.install(name)] *)
  micropip_install : string → M world unit;
  (** [open(path, "w")] *)
  open_for_writing : string → M world unit;
  (** writing an encoded document to the file opened at a path *)
  write_document : string → json → M world unit;
}.

(** [InstallEntry], lines 24-26 *)
Record InstallEntry : Type := { module : string; package : string }.

(** An [InstallEntry] is a [TypedDict]: at run time it is the plain dict
    [dict(module=..., package=...)]. *)
Definition entry_dict (entry : InstallEntry) : pyobj :=
  PDict [(PStr "module", PStr (module entry));
         (PStr "package", PStr (package entry))].

(** The argument of [install_imports]: a source text or a list of names. *)
Inductive source_or_imports : Type :=
  | SourceCode (source : string)
  | Imports (names : list string).

Section HostCode.
Context {host : Host}.
Variable py_repr : pyobj → string.
Variable str_other : pyobj → string.

(** [find_imports_to_install(imports)], lines 29-54 *)
Definition find_imports_to_install (imports : list string)
  : M world (list InstallEntry) :=
  to_package_name ←
    try_except (js_attribute module_import_name_to_package_name)
      AttributeError
      (js_attribute api_import_name_to_package_name);
  for_each imports
    (λ module to_install,
       try_except (import_module module;; mret to_install)
         ModuleNotFoundError
         (mret (to_install ++
                  [ {| module := module;
                       package := default module (to_package_name !! module) |} ])))
    [].

(** Lines 70-73: the loop that merges [additional_packages] into
    [to_install].  [package not in to_install] looks for the str among the
    elements of the list, which are the entries' dicts. *)
Definition merge_additional_packages (to_install : list InstallEntry)
    (additional_packages : list string) : list InstallEntry :=
  fold_left
    (λ to_install package,
       if negb (str_in_list package (entry_dict <$> to_install))
       then to_install ++ [ {| module := package; package := package |} ]
       else to_install)
    additional_packages to_install.

(** Lines 75-84: when the list is not empty, make micropip importable and
    install every entry's package, in order. *)
Definition install_entries (to_install : list InstallEntry) : M world unit :=
  match to_install with
  | [] => mret tt
  | _ :: _ =>
      try_except (import_module "micropip")
        ModuleNotFoundError
        (loadPackage "micropip";; import_module "micropip");;
      for_each to_install (λ entry _, micropip_install (package entry)) tt
  end.

(** [install_imports(source_code_or_imports, additional_packages)],
    lines 57-85.  The value is [None] for the bare [return] of line 65. *)
Definition install_imports (source_code_or_imports : source_or_imports)
    (additional_packages : list string)
  : M world (option (list InstallEntry)) :=
  let install (imports : list string) : M world (option (list InstallEntry)) :=
    to_install ← find_imports_to_install imports;
    let to_install :=
      merge_additional_packages to_install additional_packages in
    install_entries to_install;;
    mret (Some to_install) in
  match source_code_or_imports with
  | SourceCode source =>
      match find_imports source with
      | Returned imports => install imports
      | Raised e => if issubclass e SyntaxError then mret None else raise e
      end
  | Imports imports => install imports
  end.

(** [dump_result(path, result)], lines 140-144 *)
Definition dump_result (path : string) (result : pyobj) : M world unit :=
  open_for_writing path;;
  let result := robust_serialize py_repr str_other result in
  match json_encode str_other result with
  | Returned document => write_document path document
  | Raised e => raise e
  end.
End HostCode.

(** ** Notions the properties speak of *)

Section HostNotions.
Context {host : Host}.

(** The import-name-to-package-name table a call consults in world [w]:
    the first accessor path that exists. *)
Definition package_table (w : world) : option (gmap string string) :=
  match module_import_name_to_package_name w with
  | Some table => Some table
  | None => api_import_name_to_package_name w
  end.

(** What importing each name in turn does, from world [w] on. *)
Fixpoint import_attempts (names : list string) (w : world)
  : list (string * result unit) :=
  match names with
  | [] => []
  | name :: rest =>
      (name, (import_module name w).1)
        :: import_attempts rest (import_module name w).2
  end.

(** The world those imports leave. *)
Definition world_after_imports (names : list string) (w : world) : world :=
  fold_left (λ w name, (import_module name w).2) names w.

(** The import went through. *)
Definition imported (r : result unit) : bool :=
  match r with
  | Returned _ => true
  | Raised _ => false
  end.

(** The import failed with the module-not-found condition. *)
Definition not_found (r : result unit) : bool :=
  match r with
  | Returned _ => false
  | Raised e => issubclass e ModuleNotFoundError
  end.

(** A host on which nothing fails in another way: an import goes through or
    finds no module, the package table exists, loading and installing
    packages go through, and micropip can be imported once it is loaded. *)
Definition quiet_host : Prop :=
  (∀ name w, imported (import_module name w).1 = true
             ∨ not_found (import_module name w).1 = true)
  ∧ (∀ w, is_Some (package_table w))
  ∧ (∀ name w, (loadPackage name w).1 = Returned tt)
  ∧ (∀ name w, (micropip_install name w).1 = Returned tt)
  ∧ (∀ w, (import_module "micropip" (loadPackage "micropip" w).2).1
          = Returned tt).
End HostNotions.

(** ** A small host to run the code on *)

(** The world is the list of the names that can be imported; importing a
    name of [broken] raises [ImportError]; loading or installing a package
    makes its name importable; only the newer accessor path of the package
    table exists, and the table knows one name. *)
Definition demo_import (broken : list string) (name : string)
  : M (list string) unit :=
  λ w, if bool_decide (name ∈ broken) then (Raised ImportError, w)
       else if bool_decide (name ∈ w) then (Returned tt, w)
       else (Raised ModuleNotFoundError, w).

(** The import extractor on the three texts the examples use. *)
Definition demo_find_imports (source : string) : result (list string) :=
  if String.eqb source "import numpy" then Returned ["numpy"]
  else if String.eqb source "import (" then Raised SyntaxError
  else Returned [].

Definition demo_provide (name : string) : M (list string) unit :=
  λ w, (Returned tt, w ++ [name]).

Definition demo_host (broken : list string) : Host := {|
  world := list string;
  import_module := demo_import broken;
  find_imports := demo_find_imports;
  module_import_name_to_package_name := λ _, None;
  api_import_name_to_package_name := λ _, Some {[ "PIL" := "Pillow" ]};
  loadPackage := demo_provide;
  micropip_install := demo_provide;
  open_for_writing := λ _, mret tt;
  write_document := λ _ _, mret tt;
|}.

(** [repr] and [str] of the objects the examples use. *)
Definition demo_repr (obj : pyobj) : string :=
  match obj with
  | PObject cls _ => "<" +:+ cls +:+ " object>"
  | _ => ""
  end.

Definition demo_str (obj : pyobj) : string :=
  match obj with
  | PFloat (S754_zero false) => "0.0"
  | _ => demo_repr obj
  end.

(** Values to run the serializer on. *)
Definition sample_document : pyobj :=
  PDict [(PStr "name", PStr "run");
         (PStr "values", PList [PInt 1; PFloat (S754_zero false); PNone; PBool true]);
         (PStr "meta", PDict [])].

Definition sample_mapping : pyobj :=
  PDict [(PInt 1, PStr "a"); (PStr "x", PTuple [PInt 2]); (PStr "1", PStr "b")].

Definition sample_object : pyobj := PObject "Widget" 1.

(** ** Further notions *)

(** The names of a list in the order of their first occurrence, each once:
    the order in which a dict comes to hold keys that are set one after the
    other. *)
Fixpoint first_occurrences (names : list string) : list string :=
  match names with
  | [] => []
  | name :: rest => name :: filter (λ other, other ≠ name) (first_occurrences rest)
  end.

(** No name occurs twice in the list. *)
Fixpoint distinct_names (names : list string) : bool :=
  match names with
  | [] => true
  | name :: rest => negb (existsb (String.eqb name) rest) && distinct_names rest
  end.

(** No object of the document, at any depth, has two members of one name. *)
Fixpoint unique_member_names (document : json) : bool :=
  match document with
  | JArray elements => forallb unique_member_names elements
  | JObject members =>
      distinct_names members.*1
      && forallb (λ member, unique_member_names member.2) members
  | _ => true
  end.

Section InstallNotions.
Context {host : Host}.

(** What installing the package of each entry in turn does, from world [w]
    on. *)
Fixpoint install_attempts (entries : list InstallEntry) (w : world)
  : list (string * result unit) :=
  match entries with
  | [] => []
  | entry :: rest =>
      (package entry, (micropip_install (package entry) w).1)
        :: install_attempts rest (micropip_install (package entry) w).2
  end.

(** The world those installs leave. *)
Definition world_after_installs (entries : list InstallEntry) (w : world)
  : world :=
  fold_left (λ w entry, (micropip_install (package entry) w).2) entries w.
End InstallNotions.

(** The entry line 73 makes for an additional package. *)
Definition additional_entry (name : string) : InstallEntry :=
  {| module := name; package := name |}.

(** A host like [demo_host] on which neither accessor path of the package
    table exists. *)
Definition tableless_host : Host := {|
  world := list string;
  import_module := demo_import [];
  find_imports := demo_find_imports;
  module_import_name_to_package_name := λ _, None;
  api_import_name_to_package_name := λ _, None;
  loadPackage := demo_provide;
  micropip_install := demo_provide;
  open_for_writing := λ _, mret tt;
  write_document := λ _ _, mret tt;
|}.

(** A host whose world is its files, newest first: a path
    with the document written to it, or with [None] for a file that was
    opened for writing and holds nothing yet. *)
Definition file_host : Host := {|
  world := list (string * option json);
  import_module := λ _ w, (Returned tt, w);
  find_imports := demo_find_imports;
  module_import_name_to_package_name := λ _, None;
  api_import_name_to_package_name := λ _, Some ∅;
  loadPackage := λ _ w, (Returned tt, w);
  micropip_install := λ _ w, (Returned tt, w);
  open_for_writing := λ path w, (Returned tt, (path, None) :: w);
  write_document := λ path document w, (Returned tt, (path, Some document) :: w);
|}.

(** Installing a package the index does not have raises [ValueError]. *)
Definition index_install (unavailable : list string) (name : string)
  : M (list string) unit :=
  λ w, if bool_decide (name ∈ unavailable) then (Raised ValueError, w)
       else (Returned tt, w ++ [name]).

(** A host like [demo_host] whose package index lacks the packages of
    [unavailable]. *)
Definition index_host (unavailable : list string) : Host := {|
  world := list string;
  import_module := demo_import [];
  find_imports := demo_find_imports;
  module_import_name_to_package_name := λ _, None;
  api_import_name_to_package_name := λ _, Some {[ "PIL" := "Pillow" ]};
  loadPackage := demo_provide;
  micropip_install := index_install unavailable;
  open_for_writing := λ _, mret tt;
  write_document := λ _ _, mret tt;
|}.

(** A dict no two keys of which have the same [str]. *)
Definition sample_record : pyobj :=
  PDict [(PInt 1, PStr "a"); (PNone, PSet [PInt 2]); (PStr "x", PBool true)].

(** * Properties *)

(** ** Dicts with str keys *)

Lemma forallb_true_Forall {A : Type} (f : A → bool) (l : list A) :
  forallb f l = true ↔ Forall (λ x, f x = true) l.
Proof.
  induction l as [|x l IH]; simpl.
  - split; [constructor | done].
  - rewrite andb_true_iff, Forall_cons, IH. done.
Qed.

Lemma str_eq_true s other : str_eq s other = true ↔ other = PStr s.
Proof.
  destruct other; simpl; try (split; [discriminate | congruence]).
  rewrite String.eqb_eq. split; congruence.
Qed.

Lemma str_eq_PStr s t : str_eq s (PStr t) = String.eqb s t.
Proof. reflexivity. Qed.

Lemma dict_has_app d1 d2 k : dict_has (d1 ++ d2) k = dict_has d1 k || dict_has d2 k.
Proof. unfold dict_has. apply existsb_app. Qed.

Lemma dict_setitem_fresh d k v :
  dict_has d k = false → dict_setitem d k v = d ++ [(PStr k, v)].
Proof.
  induction d as [|[k' v'] d IH]; simpl; [done|].
  intros [Hk Hd]%orb_false_iff. rewrite Hk. by rewrite IH.
Qed.

Lemma dict_has_setitem d k v k' :
  dict_has (dict_setitem d k v) k' = dict_has d k' || String.eqb k' k.
Proof.
  induction d as [|[k0 v0] d IH]; simpl.
  - by rewrite orb_false_r.
  - destruct (str_eq k k0) eqn:E; simpl.
    + apply str_eq_true in E as ->. rewrite str_eq_PStr.
      destruct (String.eqb k' k), (dict_has d k'); done.
    + fold (dict_has (dict_setitem d k v) k'). rewrite IH.
      fold (dict_has d k'). by rewrite orb_assoc.
Qed.

Lemma dict_get_setitem d k v k' :
  dict_get (dict_setitem d k v) k' =
    if String.eqb k' k then Some v else dict_get d k'.
Proof.
  induction d as [|[k0 v0] d IH]; simpl.
  - by destruct (String.eqb k' k).
  - destruct (str_eq k k0) eqn:E; simpl.
    + apply str_eq_true in E as ->. rewrite str_eq_PStr.
      by destruct (String.eqb k' k).
    + rewrite IH. destruct (str_eq k' k0) eqn:E'; [|done].
      apply str_eq_true in E' as ->. rewrite str_eq_PStr in E.
      destruct (String.eqb k' k) eqn:E2; [|done].
      apply String.eqb_eq in E2 as ->. by rewrite String.eqb_refl in E.
Qed.

Lemma string_keyed_setitem d k v :
  string_keyed d = true → string_keyed (dict_setitem d k v) = true.
Proof.
  induction d as [|[k0 v0] d IH]; simpl; [done|].
  destruct k0; try done. intros [Hs Hd]%andb_true_iff.
  rewrite str_eq_PStr. destruct (String.eqb k s) eqn:E; simpl.
  - by rewrite Hs, Hd.
  - rewrite dict_has_setitem, IH by done.
    apply negb_true_iff in Hs. rewrite Hs. simpl.
    rewrite String.eqb_sym, E. done.
Qed.

Lemma string_keyed_app_fresh d k v rest :
  string_keyed (d ++ (PStr k, v) :: rest) = true → dict_has d k = false.
Proof.
  induction d as [|[k0 v0] d IH]; simpl; [done|].
  destruct k0; try done. intros [Hs Hd]%andb_true_iff.
  apply negb_true_iff in Hs. rewrite dict_has_app in Hs.
  apply orb_false_iff in Hs as [_ Hs]. simpl in Hs.
  apply orb_false_iff in Hs as [Hs _]. rewrite str_eq_PStr in *.
  rewrite String.eqb_sym, Hs. simpl. by apply IH.
Qed.

Lemma values_setitem (P : pyobj → bool) d k v :
  forallb (λ kv, P kv.2) d = true → P v = true →
  forallb (λ kv, P kv.2) (dict_setitem d k v) = true.
Proof.
  intros Hd Hv. induction d as [|[k0 v0] d IH]; simpl in *.
  - by rewrite Hv.
  - apply andb_true_iff in Hd as [H0 Hd].
    destruct (str_eq k k0); simpl.
    + by rewrite Hv, Hd.
    + by rewrite H0, IH.
Qed.

Lemma keys_setitem d k v key :
  key ∈ (dict_setitem d k v).*1 ↔ key ∈ d.*1 ∨ key = PStr k.
Proof.
  induction d as [|[k0 v0] d IH]; simpl.
  - rewrite list_elem_of_singleton, elem_of_nil. tauto.
  - destruct (str_eq k k0) eqn:E; simpl.
    + apply str_eq_true in E as ->. rewrite !elem_of_cons. tauto.
    + rewrite !elem_of_cons, IH. tauto.
Qed.

(** ** The result serializer *)

Section SerializerFacts.
Variable py_repr : pyobj → string.
Variable str_other : pyobj → string.

#[local] Abbreviation rs := (robust_serialize py_repr str_other).
#[local] Abbreviation str := (py_str str_other).
#[local] Abbreviation step := (λ d kv, dict_setitem d (str kv.1) (rs kv.2)).

(** The dict comprehension of line 125, started from any dict. *)

Lemma comprehension_string_keyed items acc :
  string_keyed acc = true → string_keyed (fold_left step items acc) = true.
Proof.
  revert acc. induction items as [|kv items IH]; intros acc Hacc; simpl.
  - done.
  - apply IH. by apply string_keyed_setitem.
Qed.

Lemma comprehension_values (P : pyobj → bool) items acc :
  forallb (λ kv, P kv.2) acc = true →
  Forall (λ kv, P (rs kv.2) = true) items →
  forallb (λ kv, P kv.2) (fold_left step items acc) = true.
Proof.
  intros Hacc Hitems. revert acc Hacc.
  induction Hitems as [|kv items Hkv _ IH]; intros acc Hacc; simpl.
  - done.
  - apply IH. by apply values_setitem.
Qed.

Lemma comprehension_keys items acc key :
  key ∈ (fold_left step items acc).*1 ↔
  key ∈ acc.*1 ∨ ∃ kv, kv ∈ items ∧ key = PStr (str kv.1).
Proof.
  revert acc. induction items as [|kv items IH]; intros acc; simpl.
  - split; [auto|]. intros [?|(kv & Hkv & _)]; [done|].
    by apply elem_of_nil in Hkv.
  - rewrite IH, keys_setitem. split.
    + intros [[? | ->] | (kv' & Hin & ->)]; [by left| |].
      * right. exists kv. split; [apply elem_of_cons; by left | done].
      * right. exists kv'. split; [apply elem_of_cons; by right | done].
    + intros [? | (kv' & [-> | Hin]%elem_of_cons & ->)].
      * by left; left.
      * by left; right.
      * right. by exists kv'.
Qed.

Lemma comprehension_get items acc s :
  dict_get (fold_left step items acc) s =
    match last (filter (λ kv, str kv.1 = s) items) with
    | Some kv => Some (rs kv.2)
    | None => dict_get acc s
    end.
Proof.
  revert acc. induction items as [|kv items IH]; intros acc; simpl.
  - done.
  - rewrite IH, dict_get_setitem, filter_cons.
    destruct (decide (str kv.1 = s)) as [<-|Hne].
    + rewrite String.eqb_refl.
      destruct (filter _ items) as [|kv' l] eqn:E; [done|].
      rewrite last_cons_cons. destruct (last (kv' :: l)) eqn:E2; [done|].
      by apply last_None in E2.
    + destruct (String.eqb s (str kv.1)) eqn:E; [|done].
      apply String.eqb_eq in E. congruence.
Qed.

Lemma comprehension_distinct items acc :
  string_keyed (acc ++ items) = true →
  Forall (λ kv, rs kv.2 = kv.2) items →
  fold_left step items acc = acc ++ items.
Proof.
  intros Hkeys Hitems. revert acc Hkeys.
  induction Hitems as [|[k v] items Hkv _ IH]; intros acc Hkeys; simpl.
  - by rewrite app_nil_r.
  - simpl in Hkv. rewrite Hkv.
    assert (∃ name, k = PStr name) as [name ->].
    { clear -Hkeys. induction acc as [|[k0 v0] acc IHacc]; simpl in Hkeys.
      - destruct k; try done. by eexists.
      - destruct k0; try done. apply andb_true_iff in Hkeys as [_ Hkeys]. auto. }
    simpl. rewrite dict_setitem_fresh by by eapply string_keyed_app_fresh.
    rewrite IH; rewrite <- app_assoc; done.
Qed.

(** On a value that is already JSON-compatible the serializer changes
    nothing. *)
Lemma robust_serialize_fixes_compatible x :
  json_compatible x = true → rs x = x.
Proof.
  induction x as [| | | | |items IH|items IH|items IH|items IH|items IH| | |]
    using pyobj_ind; simpl; try done.
  - intros Hall. f_equal. apply forallb_true_Forall in Hall.
    induction IH as [|x items Hx _ IHitems]; simpl; [done|].
    apply Forall_cons in Hall as [H1 H2].
    by rewrite Hx, IHitems.
  - intros [Hkeys Hvalues]%andb_true_iff. f_equal.
    apply (comprehension_distinct items []); [done|].
    apply forallb_true_Forall in Hvalues.
    induction IH as [|kv items [_ Hkv] _ IHitems]; [done|].
    apply Forall_cons in Hvalues as [H1 H2].
    simpl in Hkeys. destruct kv as [[] v]; try done.
    apply andb_true_iff in Hkeys as [_ Hkeys].
    constructor; [by apply Hkv | by apply IHitems].
Qed.

(** What the serializer returns is JSON-compatible, whatever it is given. *)
Lemma robust_serialize_compatible x : json_compatible (rs x) = true.
Proof.
  assert (Hmap : ∀ items, Forall (λ x, json_compatible (rs x) = true) items →
            forallb json_compatible (map rs items) = true).
  { induction 1 as [|y items Hy _ IHitems]; simpl; [done|].
    by rewrite Hy, IHitems. }
  induction x as [| | | | |items IH|items IH|items IH|items IH|items IH| | |]
    using pyobj_ind; simpl; try done; try by apply Hmap.
  apply andb_true_iff. split.
  - by apply comprehension_string_keyed.
  - apply (comprehension_values json_compatible); [done|].
    eapply Forall_impl; [exact IH|]. by intros kv [_ ?].
Qed.

End SerializerFacts.

Section SerializerClaims.
Variable py_repr : pyobj → string.
Variable str_other : pyobj → string.

#[local] Abbreviation rs := (robust_serialize py_repr str_other).
#[local] Abbreviation str := (py_str str_other).

(** C6: [robust_serialize] is idempotent on JSON-compatible input: for a
    value built only from strs, ints, floats, bools, None, lists of such
    values and str-keyed dicts of such values, serializing the result again
    gives the same result. *)
Theorem robust_serialize_idempotent x :
  json_compatible x = true → rs (rs x) = rs x.
Proof.
  intros Hx. rewrite (robust_serialize_fixes_compatible _ _ x Hx).
  by apply robust_serialize_fixes_compatible.
Qed.

(** C10: on JSON-compatible input [robust_serialize] is the identity:
    the value it returns equals the value it was given. *)
Theorem robust_serialize_identity x :
  json_compatible x = true → rs x = x.
Proof. apply robust_serialize_fixes_compatible. Qed.

(** C7: an object of none of the recognised shapes (primitive, sequence,
    mapping, set-like, date or datetime) is serialized to the dict with the
    two items [type], which is the str "not serializable", and [repr],
    which is the object's [repr]. *)
Theorem robust_serialize_fallback obj :
  shape_of obj = Unrecognized →
  rs obj = PDict [(PStr "type", PStr "not serializable");
                  (PStr "repr", PStr (py_repr obj))].
Proof. by destruct obj. Qed.

(** C9: a dict is serialized to a new dict with str keys; its keys are
    the [str] of the keys of the input, and under each key it holds the
    serialized value of the last item of the input, in iteration order,
    whose key has that [str]: of two keys with the same [str] the later one
    wins. *)
Theorem robust_serialize_mapping items :
  ∃ out,
    rs (PDict items) = PDict out
    ∧ string_keyed out = true
    ∧ (∀ key, key ∈ out.*1 ↔ ∃ kv, kv ∈ items ∧ key = PStr (str kv.1))
    ∧ (∀ s, dict_get out s =
            (λ kv, rs kv.2) <$> last (filter (λ kv, str kv.1 = s) items)).
Proof.
  exists (fold_left (λ d kv, dict_setitem d (str kv.1) (rs kv.2)) items []).
  split; [reflexivity|]. split; [|split].
  - by apply comprehension_string_keyed.
  - intros key. rewrite comprehension_keys. simpl. rewrite elem_of_nil. tauto.
  - intros s. rewrite comprehension_get.
    by destruct (last _).
Qed.
End SerializerClaims.

(** The serializer at work. *)

Example robust_serialize_sample_mapping :
  robust_serialize demo_repr demo_str sample_mapping
  = PDict [(PStr "1", PStr "b"); (PStr "x", PList [PInt 2])].
Proof. reflexivity. Qed.

Example robust_serialize_sample_date :
  robust_serialize demo_repr demo_str (PDate 2024 1 1) = PStr "2024-01-01".
Proof. reflexivity. Qed.

Example robust_serialize_sample_set :
  robust_serialize demo_repr demo_str (PSet [PInt 1; PInt 2; PInt 3])
  = PList [PInt 1; PInt 2; PInt 3].
Proof. reflexivity. Qed.

Lemma robust_serialize_idempotent_witness :
  json_compatible sample_document = true
  ∧ robust_serialize demo_repr demo_str
      (robust_serialize demo_repr demo_str sample_document)
    = robust_serialize demo_repr demo_str sample_document.
Proof.
  split; [reflexivity|].
  apply (robust_serialize_idempotent demo_repr demo_str sample_document).
  reflexivity.
Defined.

Lemma robust_serialize_identity_witness :
  json_compatible sample_document = true
  ∧ robust_serialize demo_repr demo_str sample_document = sample_document.
Proof.
  split; [reflexivity|].
  apply (robust_serialize_identity demo_repr demo_str sample_document).
  reflexivity.
Defined.

Lemma robust_serialize_fallback_witness :
  shape_of sample_object = Unrecognized
  ∧ robust_serialize demo_repr demo_str sample_object
    = PDict [(PStr "type", PStr "not serializable");
             (PStr "repr", PStr "<Widget object>")].
Proof.
  split; [reflexivity|].
  apply (robust_serialize_fallback demo_repr demo_str sample_object).
  reflexivity.
Defined.

(** ** The import scanner *)

Lemma issubclass_refl c : issubclass c c = true.
Proof.
  unfold issubclass. simpl. by rewrite bool_decide_eq_true_2.
Qed.

Section HostFacts.
Context {host : Host}.

(** The body of the loop of lines 44-53. *)
#[local] Abbreviation import_step table :=
  (λ (module : string) (to_install : list InstallEntry),
     try_except (import_module module;; mret to_install)
       ModuleNotFoundError
       (mret (to_install ++
                [ {| module := module;
                     package := default module (table !! module) |} ]))).

#[local] Abbreviation allowed :=
  (λ a : string * result unit, imported a.2 = true ∨ not_found a.2 = true).

#[local] Abbreviation missing :=
  (λ a : string * result unit, not_found a.2 = true).

Lemma for_each_app {A S : Type} (l1 l2 : list A) (body : A → S → M world S)
    (acc : S) (w : world) :
  for_each (l1 ++ l2) body acc w =
    (acc' ← for_each l1 body acc; for_each l2 body acc') w.
Proof.
  revert acc w. induction l1 as [|x l1 IH]; intros acc w; simpl.
  - done.
  - unfold mbind, M_bind in *. destruct (body x acc w) as [[acc'|e] w']; [|done].
    apply IH.
Qed.

Lemma for_each_cons {A S : Type} (x : A) (l : list A) (body : A → S → M world S)
    (acc : S) (w : world) :
  for_each (x :: l) body acc w =
    match body x acc w with
    | (Returned acc', w') => for_each l body acc' w'
    | (Raised e, w') => (Raised e, w')
    end.
Proof. reflexivity. Qed.

Lemma package_table_read w table :
  package_table w = Some table →
  try_except (js_attribute module_import_name_to_package_name) AttributeError
    (js_attribute api_import_name_to_package_name) w = (Returned table, w).
Proof.
  unfold package_table, try_except, js_attribute.
  destruct (module_import_name_to_package_name w); [congruence|].
  rewrite issubclass_refl. by intros ->.
Qed.

Lemma import_step_imported (table : gmap string string) name acc w :
  imported (import_module name w).1 = true →
  import_step table name acc w = (Returned acc, (import_module name w).2).
Proof.
  unfold try_except, mbind, M_bind, mret, M_ret.
  by destruct (import_module name w) as [[[]|e] w'].
Qed.

Lemma import_step_not_found (table : gmap string string) name acc w :
  not_found (import_module name w).1 = true →
  import_step table name acc w =
    (Returned (acc ++ [ {| module := name;
                           package := default name (table !! name) |} ]),
     (import_module name w).2).
Proof.
  unfold try_except, mbind, M_bind, mret, M_ret.
  destruct (import_module name w) as [[[]|e] w']; simpl; [done|].
  by intros ->.
Qed.

Lemma import_step_other (table : gmap string string) name acc w e :
  (import_module name w).1 = Raised e →
  issubclass e ModuleNotFoundError = false →
  import_step table name acc w = (Raised e, (import_module name w).2).
Proof.
  unfold try_except, mbind, M_bind, mret, M_ret.
  destruct (import_module name w) as [[[]|e'] w']; simpl; [done|].
  by intros [= ->] ->.
Qed.

(** The loop when no import fails in another way: it appends, in order, an
    entry for every name that was not found. *)
Lemma import_loop_allowed (table : gmap string string) names acc w :
  Forall allowed (import_attempts names w) →
  for_each names (import_step table) acc w =
    (Returned
       (acc ++ ((λ a, {| module := a.1; package := default a.1 (table !! a.1) |})
                <$> filter missing (import_attempts names w))),
     world_after_imports names w).
Proof.
  revert acc w. induction names as [|name names IH]; intros acc w.
  - simpl. by rewrite app_nil_r.
  - cbn [import_attempts world_after_imports fold_left].
    intros [Hname Hrest]%Forall_cons. simpl in Hname.
    rewrite for_each_cons, filter_cons. simpl.
    destruct (not_found (import_module name w).1) eqn:Hnf.
    + rewrite import_step_not_found by done. rewrite IH by done.
      rewrite decide_True by done. simpl. by rewrite <- app_assoc.
    + destruct Hname as [Himp|?]; [|done].
      rewrite import_step_imported by done. rewrite IH by done.
      by rewrite decide_False by done.
Qed.

(** The loop when an import fails in another way: the exception leaves the
    loop, and no later name is tried. *)
Lemma import_loop_other (table : gmap string string) pre name post acc w e :
  Forall allowed (import_attempts pre w) →
  (import_module name (world_after_imports pre w)).1 = Raised e →
  issubclass e ModuleNotFoundError = false →
  for_each (pre ++ name :: post) (import_step table) acc w =
    (Raised e, (import_module name (world_after_imports pre w)).2).
Proof.
  intros Hpre He Hsub. rewrite for_each_app. unfold mbind at 1, M_bind at 1.
  rewrite import_loop_allowed by done.
  rewrite for_each_cons.
  by rewrite (import_step_other _ _ _ _ e).
Qed.

Lemma find_imports_to_install_allowed imports w table :
  package_table w = Some table →
  Forall allowed (import_attempts imports w) →
  find_imports_to_install imports w =
    (Returned ((λ a, {| module := a.1; package := default a.1 (table !! a.1) |})
               <$> filter missing (import_attempts imports w)),
     world_after_imports imports w).
Proof.
  intros Htable Hall. unfold find_imports_to_install, mbind at 1, M_bind at 1.
  rewrite (package_table_read w table) by done.
  by rewrite import_loop_allowed.
Qed.

Lemma package_table_missing w :
  package_table w = None →
  try_except (js_attribute module_import_name_to_package_name) AttributeError
    (js_attribute api_import_name_to_package_name) w
  = (Raised AttributeError, w).
Proof.
  unfold package_table, try_except, js_attribute.
  destruct (module_import_name_to_package_name w); [done|].
  rewrite issubclass_refl. by intros ->.
Qed.

(** When the loop returns, no import had failed in another way. *)
Lemma import_loop_returned (table : gmap string string) names acc w l :
  (for_each names (import_step table) acc w).1 = Returned l →
  Forall allowed (import_attempts names w).
Proof.
  revert acc w. induction names as [|name names IH]; intros acc w; [constructor|].
  rewrite for_each_cons. cbn [import_attempts].
  destruct (imported (import_module name w).1) eqn:Himported.
  - rewrite import_step_imported by done. intros Hl.
    constructor; [by left | by eapply IH].
  - destruct (not_found (import_module name w).1) eqn:Hmissing.
    + rewrite import_step_not_found by done. intros Hl.
      constructor; [by right | by eapply IH].
    + destruct (import_module name w).1 as [[]|e] eqn:Hresult; [done|].
      by rewrite (import_step_other _ _ _ _ e).
Qed.

Lemma find_imports_to_install_returned imports w to_install :
  (find_imports_to_install imports w).1 = Returned to_install →
  is_Some (package_table w) ∧ Forall allowed (import_attempts imports w).
Proof.
  unfold find_imports_to_install, mbind at 1, M_bind at 1.
  destruct (package_table w) as [table|] eqn:Htable.
  - rewrite (package_table_read w table) by done. intros Hl.
    split; [by eexists | by eapply import_loop_returned].
  - by rewrite package_table_missing.
Qed.

(** The merge of lines 70-73 never finds the name: the elements of the list
    are dicts, and a str is equal to none of them. *)
Lemma merge_additional_packages_appends to_install additional_packages :
  merge_additional_packages to_install additional_packages =
    to_install ++ ((λ name, {| module := name; package := name |})
                   <$> additional_packages).
Proof.
  unfold merge_additional_packages. revert to_install.
  induction additional_packages as [|name names IH]; intros to_install; simpl.
  - by rewrite app_nil_r.
  - assert (str_in_list name (entry_dict <$> to_install) = false) as ->.
    { unfold str_in_list. induction to_install as [|entry l IHl]; simpl; done. }
    simpl. rewrite IH. by rewrite <- app_assoc.
Qed.

(** On a quiet host every step goes through. *)

Lemma quiet_import_attempts names w :
  quiet_host → Forall allowed (import_attempts names w).
Proof.
  intros (Himport & _). revert w.
  induction names as [|name names IH]; intros w; simpl; constructor.
  - apply Himport.
  - apply IH.
Qed.

Lemma quiet_installs (l : list InstallEntry) w :
  quiet_host →
  (for_each l (λ entry _, micropip_install (package entry)) tt w).1
  = Returned tt.
Proof.
  intros (_ & _ & _ & Hinstall & _). revert w.
  induction l as [|entry l IH]; intros w; [done|].
  rewrite for_each_cons. specialize (Hinstall (package entry) w).
  destruct (micropip_install (package entry) w) as [[[]|e] w']; simpl in *.
  - apply IH.
  - done.
Qed.

Lemma quiet_install_entries to_install w :
  quiet_host → (install_entries to_install w).1 = Returned tt.
Proof.
  intros Hquiet. destruct to_install as [|entry l]; [done|].
  unfold install_entries, mbind at 1, M_bind at 1, try_except.
  pose proof Hquiet as (Himport & _ & Hload & _ & Hmicropip).
  specialize (Himport "micropip" w).
  destruct (import_module "micropip" w) as [[[]|e] w1]; simpl in Himport.
  - by apply (quiet_installs (entry :: l)).
  - destruct Himport as [? | ->]; [done|].
    unfold mbind, M_bind.
    specialize (Hload "micropip" w1). specialize (Hmicropip w1).
    destruct (loadPackage "micropip" w1) as [[[]|e1] w2]; simpl in *; [|done].
    destruct (import_module "micropip" w2) as [[[]|e2] w3]; simpl in *; [|done].
    by apply (quiet_installs (entry :: l)).
Qed.

Lemma install_imports_parsed source imports additional_packages :
  find_imports source = Returned imports →
  install_imports (SourceCode source) additional_packages
  = install_imports (Imports imports) additional_packages.
Proof. unfold install_imports. by intros ->. Qed.

Lemma install_imports_names_some imports additional_packages w value :
  (install_imports (Imports imports) additional_packages w).1 = Returned value →
  ∃ to_install, value = Some to_install.
Proof.
  unfold install_imports, mbind, M_bind.
  destruct (find_imports_to_install imports w) as [[l|e] w1]; [|done].
  destruct (install_entries _ w1) as [[[]|e] w2]; [|done].
  simpl. intros [= <-]. by eexists.
Qed.

Lemma install_imports_names_quiet imports additional_packages w :
  quiet_host →
  ∃ to_install,
    (install_imports (Imports imports) additional_packages w).1
    = Returned (Some to_install).
Proof.
  intros Hquiet. unfold install_imports, mbind, M_bind.
  destruct (proj1 (proj2 Hquiet) w) as [table Htable].
  rewrite (find_imports_to_install_allowed imports w table)
    by auto using quiet_import_attempts.
  pose proof (quiet_install_entries
    (merge_additional_packages
       ((λ a, {| module := a.1; package := default a.1 (table !! a.1) |})
        <$> filter missing (import_attempts imports w)) additional_packages)
    (world_after_imports imports w) Hquiet) as Hinstall.
  destruct (install_entries _ _) as [[[]|e] w2]; simpl in *; [|done].
  by eexists.
Qed.
End HostFacts.

Section HostClaims.
Context {host : Host}.

#[local] Abbreviation allowed :=
  (λ a : string * result unit, imported a.2 = true ∨ not_found a.2 = true).

#[local] Abbreviation missing :=
  (λ a : string * result unit, not_found a.2 = true).

(** C3: whatever list [find_imports_to_install] returns holds one entry for
    each name whose import failed with the module-not-found condition, in
    the order of the input list, and none for a name that was imported; and
    it does return when the package table exists and no import fails in
    another way. *)
Theorem find_imports_to_install_missing imports w :
  (∀ to_install,
     (find_imports_to_install imports w).1 = Returned to_install →
     module <$> to_install = (filter missing (import_attempts imports w)).*1)
  ∧ (is_Some (package_table w) →
     Forall allowed (import_attempts imports w) →
     ∃ to_install, (find_imports_to_install imports w).1 = Returned to_install).
Proof.
  split.
  - intros to_install Hreturned.
    destruct (find_imports_to_install_returned _ _ _ Hreturned)
      as [[table Htable] Hall].
    rewrite (find_imports_to_install_allowed imports w table) in Hreturned
      by done.
    simpl in Hreturned. injection Hreturned as <-.
    by rewrite <- list_fmap_compose.
  - intros [table Htable] Hall. eexists.
    by rewrite (find_imports_to_install_allowed imports w table).
Qed.

(** C4: the entry made for a name that was not found has as its package the
    value the lookup table gives for the name when the table contains it,
    and the name itself when the table does not. *)
Theorem install_entry_package imports w table name r :
  package_table w = Some table →
  Forall allowed (import_attempts imports w) →
  (name, r) ∈ import_attempts imports w →
  not_found r = true →
  ∃ to_install,
    (find_imports_to_install imports w).1 = Returned to_install
    ∧ (∃ entry, entry ∈ to_install ∧ module entry = name)
    ∧ (∀ entry, entry ∈ to_install → module entry = name →
         package entry = match table !! name with
                         | Some pkg => pkg
                         | None => name
                         end).
Proof.
  intros Htable Hall Hin Hr. eexists. split; [|split].
  - by rewrite (find_imports_to_install_allowed imports w table).
  - eexists. split.
    + apply list_elem_of_fmap. exists (name, r). split; [done|].
      by apply list_elem_of_filter.
    + done.
  - intros entry (a & -> & _)%list_elem_of_fmap. simpl. intros ->.
    by destruct (table !! name).
Qed.

(** C5: only the module-not-found failure is caught and turned into an
    entry.  An import that finds no module does not end the call, and the
    returned list holds one entry for every such import, in order; every
    entry of a returned list stands for a name whose import was not found;
    and when an import raises any other exception
    [find_imports_to_install] raises that very exception to its caller. *)
Theorem other_import_failure_propagates imports w :
  (is_Some (package_table w) →
   Forall allowed (import_attempts imports w) →
   ∃ to_install, (find_imports_to_install imports w).1 = Returned to_install)
  ∧ (∀ to_install,
       (find_imports_to_install imports w).1 = Returned to_install →
       module <$> to_install = (filter missing (import_attempts imports w)).*1)
  ∧ (∀ to_install entry,
       (find_imports_to_install imports w).1 = Returned to_install →
       entry ∈ to_install →
       ∃ r, (module entry, r) ∈ import_attempts imports w ∧ not_found r = true)
  ∧ (∀ pre name post e,
       imports = pre ++ name :: post →
       is_Some (package_table w) →
       Forall allowed (import_attempts pre w) →
       (import_module name (world_after_imports pre w)).1 = Raised e →
       issubclass e ModuleNotFoundError = false →
       (find_imports_to_install imports w).1 = Raised e).
Proof.
  split; [|split; [|split]].
  - intros [table Htable] Hall. eexists.
    by rewrite (find_imports_to_install_allowed imports w table).
  - intros to_install Hreturned.
    destruct (find_imports_to_install_returned _ _ _ Hreturned)
      as [[table Htable] Hall].
    rewrite (find_imports_to_install_allowed imports w table) in Hreturned
      by done.
    simpl in Hreturned. injection Hreturned as <-.
    by rewrite <- list_fmap_compose.
  - intros to_install entry Hreturned Hentry.
    destruct (find_imports_to_install_returned _ _ _ Hreturned)
      as [[table Htable] Hall].
    rewrite (find_imports_to_install_allowed imports w table) in Hreturned
      by done.
    simpl in Hreturned. injection Hreturned as <-.
    apply list_elem_of_fmap in Hentry as ([name r] & -> & Hin).
    apply list_elem_of_filter in Hin as [Hmissing Hin].
    by exists r.
  - intros pre name post e -> [table Htable] Hpre He Hsub.
    unfold find_imports_to_install, mbind at 1, M_bind at 1.
    rewrite (package_table_read w table) by done.
    by rewrite (import_loop_other table pre name post [] w e).
Qed.

(** C2: [install_imports] returns None exactly when it is given a source
    text on which the import extractor fails with a syntax error.  Given a
    list of names, or a text the extractor accepts, whatever it returns is a
    list, and on a host where nothing else fails it does return one. *)
Theorem install_imports_none_iff_syntax_error input additional_packages w :
  ((install_imports input additional_packages w).1 = Returned None ↔
     ∃ source e, input = SourceCode source
                 ∧ find_imports source = Raised e
                 ∧ issubclass e SyntaxError = true)
  ∧ (∀ imports,
       input = Imports imports
       ∨ (∃ source, input = SourceCode source
                    ∧ find_imports source = Returned imports) →
       (∀ value, (install_imports input additional_packages w).1
                 = Returned value → ∃ to_install, value = Some to_install)
       ∧ (quiet_host →
          ∃ to_install, (install_imports input additional_packages w).1
                        = Returned (Some to_install))).
Proof.
  split.
  - split.
    + destruct input as [source|imports].
      * destruct (find_imports source) as [imports|e] eqn:Hfind.
        -- rewrite (install_imports_parsed _ imports) by done.
           intros [l [=]]%install_imports_names_some.
        -- unfold install_imports. rewrite Hfind.
           destruct (issubclass e SyntaxError) eqn:Hsub; [|done].
           intros _. by exists source, e.
      * intros [l [=]]%install_imports_names_some.
    + intros (source & e & -> & Hfind & Hsub).
      unfold install_imports. by rewrite Hfind, Hsub.
  - intros imports [-> | (source & -> & Hfind)].
    + split; [apply install_imports_names_some|apply install_imports_names_quiet].
    + rewrite (install_imports_parsed _ imports) by done.
      split; [apply install_imports_names_some|apply install_imports_names_quiet].
Qed.

End HostClaims.

(** ** The code at work on the small host *)

Example find_imports_to_install_sample :
  (find_imports_to_install (host := demo_host []) ["numpy"; "sys"; "PIL"] ["sys"]).1
  = Returned [ {| module := "numpy"; package := "numpy" |};
               {| module := "PIL"; package := "Pillow" |} ].
Proof. vm_compute. reflexivity. Qed.

Example install_imports_sample_additional :
  (install_imports (host := demo_host []) (Imports []) ["foo"] []).1
  = Returned (Some [ {| module := "foo"; package := "foo" |} ]).
Proof. vm_compute. reflexivity. Qed.

Example install_imports_sample_syntax_error :
  (install_imports (host := demo_host []) (SourceCode "import (") ["foo"] []).1
  = Returned None.
Proof. vm_compute. reflexivity. Qed.

(** C1: [install_imports] does add a second entry for an additional
    package whose module is already in the list: with [foo] not importable,
    [install_imports(["foo"], ["foo"])] returns two entries for [foo]. *)
Theorem install_imports_adds_present_package :
  (install_imports (host := demo_host []) (Imports ["foo"]) ["foo"] []).1
  = Returned (Some [ {| module := "foo"; package := "foo" |};
                     {| module := "foo"; package := "foo" |} ]).
Proof. vm_compute. reflexivity. Qed.

Lemma find_imports_to_install_missing_witness :
  ∃ to_install,
    (find_imports_to_install (host := demo_host [])
       ["numpy"; "sys"; "PIL"] ["sys"]).1 = Returned to_install
    ∧ module <$> to_install = ["numpy"; "PIL"].
Proof.
  destruct (find_imports_to_install_missing (host := demo_host [])
              ["numpy"; "sys"; "PIL"] ["sys"]) as [Hexact Hreturns].
  destruct Hreturns as [to_install Hreturned].
  - by eexists.
  - repeat constructor; first [by left | by right].
  - exists to_install. split; [exact Hreturned|].
    rewrite (Hexact to_install Hreturned). vm_compute. reflexivity.
Defined.

Lemma install_entry_package_witness :
  ∃ to_install,
    (find_imports_to_install (host := demo_host [])
       ["numpy"; "sys"; "PIL"] ["sys"]).1 = Returned to_install
    ∧ (∃ entry, entry ∈ to_install ∧ module entry = "PIL")
    ∧ (∀ entry, entry ∈ to_install → module entry = "PIL" →
         package entry = "Pillow").
Proof.
  destruct (install_entry_package (host := demo_host [])
              ["numpy"; "sys"; "PIL"] ["sys"] {[ "PIL" := "Pillow" ]}
              "PIL" (Raised ModuleNotFoundError))
    as (to_install & Hreturned & Hentry & Hpackage).
  - reflexivity.
  - repeat constructor; first [by left | by right].
  - do 2 apply list_elem_of_further. apply list_elem_of_here.
  - reflexivity.
  - exists to_install. split; [exact Hreturned|]. split; [exact Hentry|].
    intros entry Hin Hmodule. rewrite (Hpackage entry Hin Hmodule).
    vm_compute. reflexivity.
Defined.

Lemma other_import_failure_propagates_witness :
  (find_imports_to_install (host := demo_host ["broken"])
     ["numpy"; "broken"; "sys"] ["sys"]).1 = Raised ImportError
  ∧ ∃ to_install,
      (find_imports_to_install (host := demo_host ["broken"])
         ["numpy"; "sys"] ["sys"]).1 = Returned to_install
      ∧ module <$> to_install = ["numpy"].
Proof.
  split.
  - apply (proj2 (proj2 (proj2
             (other_import_failure_propagates (host := demo_host ["broken"])
                ["numpy"; "broken"; "sys"] ["sys"])))
             ["numpy"] "broken" ["sys"] ImportError).
    + reflexivity.
    + by eexists.
    + repeat constructor; first [by left | by right].
    + reflexivity.
    + reflexivity.
  - destruct (other_import_failure_propagates (host := demo_host ["broken"])
                ["numpy"; "sys"] ["sys"]) as (Hcaught & Hconverted & _).
    destruct Hcaught as [to_install Hreturned].
    + by eexists.
    + repeat constructor; first [by left | by right].
    + exists to_install. split; [exact Hreturned|].
      rewrite (Hconverted to_install Hreturned). vm_compute. reflexivity.
Defined.

Lemma demo_host_quiet : quiet_host (host := demo_host []).
Proof.
  repeat split.
  - intros name w. simpl. unfold demo_import.
    rewrite bool_decide_eq_false_2 by apply not_elem_of_nil.
    case_bool_decide; [by left | by right].
  - intros w. by eexists.
  - intros w. simpl. unfold demo_import, demo_provide. simpl.
    rewrite bool_decide_eq_true_2; [done|].
    apply elem_of_app. right. apply list_elem_of_here.
Qed.

Lemma install_imports_none_iff_syntax_error_witness :
  (install_imports (host := demo_host []) (SourceCode "import (") ["foo"] []).1
  = Returned None
  ∧ ∃ to_install,
      (install_imports (host := demo_host []) (SourceCode "import numpy")
         ["foo"] []).1 = Returned (Some to_install).
Proof.
  split.
  - apply (proj1 (install_imports_none_iff_syntax_error (host := demo_host [])
                    (SourceCode "import (") ["foo"] [])).
    exists "import (", SyntaxError. repeat split; reflexivity.
  - apply (proj2 (install_imports_none_iff_syntax_error (host := demo_host [])
                    (SourceCode "import numpy") ["foo"] []) ["numpy"]).
    + right. exists "import numpy". split; reflexivity.
    + apply demo_host_quiet.
Defined.

(** * Further properties *)

(** ** Keys of dicts *)

Lemma existsb_eqb_elem_of (k : string) (names : list string) :
  existsb (String.eqb k) names = true ↔ k ∈ names.
Proof.
  induction names as [|name names IH]; simpl.
  - rewrite elem_of_nil. split; [discriminate | tauto].
  - rewrite orb_true_iff, IH, String.eqb_eq, elem_of_cons. tauto.
Qed.

Lemma dict_has_names d (names : list string) k :
  d.*1 = PStr <$> names → dict_has d k = existsb (String.eqb k) names.
Proof.
  revert names. induction d as [|[k0 v0] d IH]; intros [|name names];
    simpl; try done.
  intros [= -> Hd]. fold (dict_has d k). by rewrite (IH names), str_eq_PStr.
Qed.

Lemma dict_setitem_keys d k v :
  (dict_setitem d k v).*1 = if dict_has d k then d.*1 else d.*1 ++ [PStr k].
Proof.
  induction d as [|[k0 v0] d IH]; [done|].
  unfold dict_has in *. cbn [dict_setitem existsb fst].
  destruct (str_eq k k0) eqn:E; [done|].
  rewrite fmap_cons, IH. simpl. by destruct (existsb _ d).
Qed.

Lemma string_keyed_distinct_names d (names : list string) :
  d.*1 = PStr <$> names → string_keyed d = true → distinct_names names = true.
Proof.
  revert names. induction d as [|[k0 v0] d IH]; intros [|name names];
    simpl; try done.
  intros [= -> Hd]. intros [Hfresh Hrest]%andb_true_iff.
  rewrite (dict_has_names d names) in Hfresh by done.
  by rewrite Hfresh, (IH names).
Qed.

Section SerializerMore.
Variable py_repr : pyobj → string.
Variable str_other : pyobj → string.

#[local] Abbreviation rs := (robust_serialize py_repr str_other).
#[local] Abbreviation str := (py_str str_other).
#[local] Abbreviation step := (λ d kv, dict_setitem d (str kv.1) (rs kv.2)).

Lemma comprehension_no_collision items acc :
  NoDup ((λ kv, str kv.1) <$> items) →
  (∀ kv, kv ∈ items → dict_has acc (str kv.1) = false) →
  fold_left step items acc
  = acc ++ ((λ kv, (PStr (str kv.1), rs kv.2)) <$> items).
Proof.
  revert acc. induction items as [|kv items IH]; intros acc Hnodup Hfresh.
  - simpl. by rewrite app_nil_r.
  - cbn [fold_left fmap list_fmap]. apply NoDup_cons in Hnodup as [Hkv Hnodup].
    rewrite dict_setitem_fresh by (apply Hfresh, list_elem_of_here).
    rewrite IH; [by rewrite <- app_assoc | done |].
    intros kv' Hin. rewrite dict_has_app, Hfresh by by apply list_elem_of_further.
    simpl. rewrite orb_false_r. apply not_true_is_false.
    intros Heq%String.eqb_eq. apply Hkv. rewrite <- Heq.
    by apply (list_elem_of_fmap_2 (λ kv, str kv.1)).
Qed.

Lemma comprehension_key_order items (names : list string) acc :
  acc.*1 = PStr <$> names →
  (fold_left step items acc).*1
  = PStr <$> (names ++ filter (λ name, name ∉ names)
                         (first_occurrences ((λ kv, str kv.1) <$> items))).
Proof.
  revert names acc. induction items as [|kv items IH]; intros names acc Hacc.
  - simpl. by rewrite app_nil_r.
  - cbn [fold_left fmap list_fmap first_occurrences].
    pose proof (dict_setitem_keys acc (str kv.1) (rs kv.2)) as Hkeys.
    rewrite (dict_has_names acc names) in Hkeys by done.
    destruct (existsb (String.eqb (str kv.1)) names) eqn:Hseen.
    + apply existsb_eqb_elem_of in Hseen.
      rewrite (IH names) by by rewrite Hkeys.
      rewrite filter_cons_False by tauto.
      rewrite list_filter_filter. do 2 f_equal.
      apply list_filter_iff. intros name. split; [|tauto].
      intros Hname. split; [done|]. by intros ->.
    + assert (str kv.1 ∉ names) as Hnew.
      { rewrite <- existsb_eqb_elem_of. by rewrite Hseen. }
      rewrite (IH (names ++ [str kv.1]))
        by by rewrite Hkeys, Hacc, fmap_app.
      rewrite filter_cons_True by done.
      rewrite list_filter_filter, <- app_assoc. simpl. do 3 f_equal.
      apply list_filter_iff. intros name.
      rewrite not_elem_of_app, list_elem_of_singleton. tauto.
Qed.
End SerializerMore.

Lemma filter_all {A : Type} (P : A → Prop) `{∀ x, Decision (P x)} (l : list A) :
  (∀ x, P x) → filter P l = l.
Proof.
  intros HP. induction l as [|x l IH]; [done|].
  by rewrite filter_cons_True, IH.
Qed.

(** ** More on the result serializer *)

Section SerializerExtras.
Variable py_repr : pyobj → string.
Variable str_other : pyobj → string.

#[local] Abbreviation rs := (robust_serialize py_repr str_other).
#[local] Abbreviation str := (py_str str_other).

(** X1: serializing a second time changes nothing, whatever the first
    input was: what [robust_serialize] returns is a value it returns
    unchanged. *)
Theorem serialize_twice_is_once x :
  robust_serialize py_repr str_other (robust_serialize py_repr str_other x)
  = robust_serialize py_repr str_other x.
Proof.
  apply robust_serialize_fixes_compatible, robust_serialize_compatible.
Qed.

(** X3: a dict no two keys of which have the same [str] keeps all its
    items and their order: each item becomes the item of the [str] of its
    key and its serialized value. *)
Theorem robust_serialize_distinct_keys items :
  NoDup ((λ kv, py_str str_other kv.1) <$> items) →
  robust_serialize py_repr str_other (PDict items)
  = PDict ((λ kv, (PStr (py_str str_other kv.1),
                   robust_serialize py_repr str_other kv.2)) <$> items).
Proof.
  intros Hnodup. simpl. f_equal.
  by rewrite (comprehension_no_collision py_repr str_other items []).
Qed.

(** X4: the keys of the serialized dict stand in the order in which their
    [str] first occurs among the keys of the input, each once. *)
Theorem robust_serialize_key_order items :
  ∃ out,
    robust_serialize py_repr str_other (PDict items) = PDict out
    ∧ out.*1
      = PStr <$> first_occurrences ((λ kv, py_str str_other kv.1) <$> items).
Proof.
  exists (fold_left (λ d kv, dict_setitem d (str kv.1) (rs kv.2)) items []).
  split; [reflexivity|].
  rewrite (comprehension_key_order py_repr str_other items [] []) by done.
  simpl. f_equal. apply filter_all. intros name. apply not_elem_of_nil.
Qed.

(** In a document encoded from a JSON-compatible value no object has two
    members of one name. *)
Lemma json_encode_unique x :
  json_compatible x = true →
  ∀ document,
    json_encode str_other x = Returned document →
    unique_member_names document = true.
Proof.
  induction x as [| | | | |items IH|items IH|items IH|items IH|items IH| | |]
    using pyobj_ind; simpl; try done;
    try (intros _ document [= <-]; done).
  - intros _ document. by destruct (int_text n); intros [= <-].
  - intros Hall document. apply forallb_true_Forall in Hall.
    destruct (result_mapM _ items) as [elements|e] eqn:Hmap; intros [= <-].
    simpl. revert elements Hmap.
    induction IH as [|x items Hx _ IHitems]; simpl; intros elements.
    + by intros [= <-].
    + apply Forall_cons in Hall as [H1 H2].
      destruct (json_encode str_other x) as [doc|e] eqn:Hdoc; [|done].
      destruct (result_mapM _ items) as [docs|e] eqn:Hdocs; intros [= <-].
      simpl. by rewrite (Hx H1 doc), (IHitems H2 docs).
  - intros [Hkeys Hvalues]%andb_true_iff document.
    apply forallb_true_Forall in Hvalues.
    destruct (result_mapM _ items) as [members|e] eqn:Hmap; intros [= <-].
    assert (items.*1 = PStr <$> members.*1
            ∧ forallb (λ member, unique_member_names member.2) members = true)
      as [Hnames Hunique].
    { revert members Hmap.
      induction IH as [|kv items [_ Hkv] _ IHitems]; simpl; intros members.
      - by intros [= <-].
      - apply Forall_cons in Hvalues as [H1 H2].
        simpl in Hkeys. destruct kv as [[] v]; try done.
        apply andb_true_iff in Hkeys as [_ Hkeys]. simpl in *.
        destruct (json_encode str_other v) as [doc|e] eqn:Hdoc; [|done].
        destruct (result_mapM _ items) as [docs|e] eqn:Hdocs; intros [= <-].
        destruct (IHitems Hkeys H2 docs eq_refl) as [Hn Hu]. simpl.
        rewrite (Hkv H1 doc), Hu by done. split; [by f_equal|done]. }
    simpl. by rewrite (string_keyed_distinct_names items members.*1), Hunique.
Qed.
End SerializerExtras.

Section DumpResultExtras.
Context {host : Host}.
Variable py_repr : pyobj → string.
Variable str_other : pyobj → string.

(** [dump_result], step by step. *)
Lemma dump_result_run (path : string) (x : pyobj) (w : world) :
  dump_result py_repr str_other path x w =
    match open_for_writing path w with
    | (Raised e, w1) => (Raised e, w1)
    | (Returned _, w1) =>
        match json_encode str_other (robust_serialize py_repr str_other x) with
        | Raised e => (Raised e, w1)
        | Returned document => write_document path document w1
        end
    end.
Proof.
  unfold dump_result, mbind, M_bind. cbv zeta.
  destruct (open_for_writing path w) as [[[]|e] w1]; [|done].
  by destruct (json_encode _ _).
Qed.

(** An int of too many digits stops [dump_result] after the file was
    opened: the encoder raises [ValueError] and nothing is written. *)
Lemma dump_result_oversized_int (path : string) (n : Z) (w : world) :
  (10 ^ Z.of_nat int_max_str_digits ≤ Z.abs n)%Z →
  (open_for_writing path w).1 = Returned tt →
  dump_result py_repr str_other path (PInt n) w
  = (Raised ValueError, (open_for_writing path w).2).
Proof.
  intros Hn Hopen. rewrite dump_result_run.
  destruct (open_for_writing path w) as [[[]|e] w1]; [|done].
  simpl. unfold int_text. by rewrite bool_decide_eq_true_2.
Qed.

(** X5: when [dump_result] returns, the document it wrote is the encoding
    of the serialized value, and no object of it has two members of the
    same name, at any depth. *)
Theorem dump_result_unique_member_names (path : string) (x : pyobj) w :
  (dump_result py_repr str_other path x w).1 = Returned tt →
  ∃ document,
    json_encode str_other (robust_serialize py_repr str_other x)
    = Returned document
    ∧ dump_result py_repr str_other path x w
      = write_document path document (open_for_writing path w).2
    ∧ unique_member_names document = true.
Proof.
  rewrite dump_result_run.
  destruct (open_for_writing path w) as [[[]|e] w1]; [|done].
  destruct (json_encode _ _) as [document|e] eqn:Hdoc; [|done].
  intros _. exists document. split; [done|]. split; [done|].
  apply (json_encode_unique str_other
           (robust_serialize py_repr str_other x)); [|done].
  apply robust_serialize_compatible.
Qed.

(** X6: when [dump_result] returns for a JSON-compatible value, the
    document it wrote is the encoding of the value itself. *)
Theorem dump_result_compatible (path : string) (x : pyobj) w :
  json_compatible x = true →
  (dump_result py_repr str_other path x w).1 = Returned tt →
  ∃ document,
    json_encode str_other x = Returned document
    ∧ dump_result py_repr str_other path x w
      = write_document path document (open_for_writing path w).2.
Proof.
  intros Hx. rewrite dump_result_run.
  rewrite (robust_serialize_fixes_compatible py_repr str_other x Hx).
  destruct (open_for_writing path w) as [[[]|e] w1]; [|done].
  destruct (json_encode _ _) as [document|e] eqn:Hdoc; [|done].
  intros _. by exists document.
Qed.
End DumpResultExtras.

(** C8: the encoding step of [dump_result] does fail on a value
    [robust_serialize] hands over as it is: for the int 10 ** 4300, of 4301
    digits, the encoder raises [ValueError] and the file that was opened
    is left empty. *)
Theorem dump_result_refuses_huge_int :
  robust_serialize demo_repr demo_str (PInt (10 ^ 4300)) = PInt (10 ^ 4300)
  ∧ json_compatible (PInt (10 ^ 4300)) = true
  ∧ json_encode demo_str (robust_serialize demo_repr demo_str (PInt (10 ^ 4300)))
    = Raised ValueError
  ∧ dump_result (host := file_host) demo_repr demo_str "out.json"
      (PInt (10 ^ 4300)) []
    = (Raised ValueError, [("out.json", None)]).
Proof.
  split; [reflexivity|]. split; [reflexivity|].
  split; [by vm_compute|].
  by rewrite (dump_result_oversized_int (host := file_host)).
Qed.

(** An int of 4300 digits is written. *)
Example dump_result_sample_large_int :
  dump_result (host := file_host) demo_repr demo_str "out.json"
    (PInt (10 ^ 4300 - 1)) []
  = (Returned tt,
     [("out.json", Some (JInt (10 ^ 4300 - 1))); ("out.json", None)]).
Proof. by vm_compute. Qed.

(** Encoded as it is, a dict whose keys 1 and "1" differ gets two members
    named 1; serialized first, it gets one. *)
Example json_encode_sample_mapping :
  json_encode demo_str sample_mapping
  = Returned (JObject [("1", JString "a"); ("x", JArray [JInt 2]);
                       ("1", JString "b")])
  ∧ json_encode demo_str (robust_serialize demo_repr demo_str sample_mapping)
    = Returned (JObject [("1", JString "b"); ("x", JArray [JInt 2])]).
Proof. split; reflexivity. Qed.

Lemma robust_serialize_distinct_keys_witness :
  robust_serialize demo_repr demo_str sample_record
  = PDict [(PStr "1", PStr "a"); (PStr "None", PList [PInt 2]);
           (PStr "x", PBool true)].
Proof.
  apply (robust_serialize_distinct_keys demo_repr demo_str
           [(PInt 1, PStr "a"); (PNone, PSet [PInt 2]); (PStr "x", PBool true)]).
  apply (bool_decide_unpack _). vm_compute. exact I.
Defined.

Lemma dump_result_unique_member_names_witness :
  ∃ document,
    json_encode demo_str (robust_serialize demo_repr demo_str sample_mapping)
    = Returned document
    ∧ dump_result (host := file_host) demo_repr demo_str "out.json"
        sample_mapping []
      = @write_document file_host "out.json" document [("out.json", None)]
    ∧ unique_member_names document = true.
Proof.
  apply (dump_result_unique_member_names (host := file_host)
           demo_repr demo_str "out.json" sample_mapping []).
  reflexivity.
Defined.

Lemma dump_result_compatible_witness :
  ∃ document,
    json_encode demo_str sample_document = Returned document
    ∧ dump_result (host := file_host) demo_repr demo_str "out.json"
        sample_document []
      = @write_document file_host "out.json" document [("out.json", None)].
Proof.
  apply (dump_result_compatible (host := file_host) demo_repr demo_str
           "out.json" sample_document []).
  - reflexivity.
  - by vm_compute.
Defined.

(** ** More on the import scanner and the installer *)

Section InstallExtras.
Context {host : Host}.

#[local] Abbreviation install_loop to_install :=
  (for_each to_install (λ entry (_ : unit), micropip_install (package entry)) tt).

#[local] Abbreviation installed :=
  (λ a : string * result unit, a.2 = Returned tt).

(** [install_imports] on a list of names, step by step. *)
Lemma install_imports_names_run imports additional_packages w :
  install_imports (Imports imports) additional_packages w =
    match find_imports_to_install imports w with
    | (Raised e, w0) => (Raised e, w0)
    | (Returned detected, w0) =>
        match
          install_entries
            (detected ++ (additional_entry <$> additional_packages)) w0
        with
        | (Raised e, w1) => (Raised e, w1)
        | (Returned _, w1) =>
            (Returned
               (Some (detected ++ (additional_entry <$> additional_packages))),
             w1)
        end
    end.
Proof.
  unfold install_imports, mbind, M_bind, mret, M_ret.
  destruct (find_imports_to_install imports w) as [[detected|e] w0]; [|done].
  rewrite merge_additional_packages_appends.
  by destruct (install_entries _ w0) as [[[]|e] w1].
Qed.

(** Lines 75-84 on a list that is not empty, step by step. *)
Lemma install_entries_run to_install w :
  to_install ≠ [] →
  install_entries to_install w =
    match import_module "micropip" w with
    | (Returned _, w1) => install_loop to_install w1
    | (Raised e, w1) =>
        if issubclass e ModuleNotFoundError then
          match loadPackage "micropip" w1 with
          | (Raised e', w2) => (Raised e', w2)
          | (Returned _, w2) =>
              match import_module "micropip" w2 with
              | (Raised e', w3) => (Raised e', w3)
              | (Returned _, w3) => install_loop to_install w3
              end
          end
        else (Raised e, w1)
    end.
Proof.
  destruct to_install as [|entry rest]; [done|]. intros _.
  unfold install_entries, mbind at 1, M_bind at 1, try_except.
  destruct (import_module "micropip" w) as [[[]|e] w1]; [done|].
  destruct (issubclass e ModuleNotFoundError); [|done].
  unfold mbind at 1, M_bind at 1.
  destruct (loadPackage "micropip" w1) as [[[]|e1] w2]; [|done].
  by destruct (import_module "micropip" w2) as [[[]|e2] w3].
Qed.

Lemma install_loop_returns to_install w :
  Forall installed (install_attempts to_install w) →
  install_loop to_install w = (Returned tt, world_after_installs to_install w).
Proof.
  revert w. induction to_install as [|entry rest IH]; intros w; [done|].
  cbn [install_attempts world_after_installs fold_left].
  intros [Hentry Hrest]%Forall_cons. simpl in Hentry.
  rewrite for_each_cons.
  destruct (micropip_install (package entry) w) as [[[]|e] w1]; [|done].
  by apply IH.
Qed.

Lemma install_loop_fails pre entry post w e :
  Forall installed (install_attempts pre w) →
  (micropip_install (package entry) (world_after_installs pre w)).1 = Raised e →
  install_loop (pre ++ entry :: post) w
  = (Raised e, (micropip_install (package entry) (world_after_installs pre w)).2).
Proof.
  intros Hpre Hentry. rewrite for_each_app. unfold mbind at 1, M_bind at 1.
  rewrite install_loop_returns by done. rewrite for_each_cons.
  destruct (micropip_install _ _) as [[[]|e'] w1]; simpl in *; congruence.
Qed.

(** X7: when neither accessor path of the package table exists,
    [find_imports_to_install] raises [AttributeError] before it tries any
    import, even for an empty list, and [install_imports] passes the
    exception on with nothing installed. *)
Theorem package_table_missing_raises imports additional_packages w :
  package_table w = None →
  find_imports_to_install imports w = (Raised AttributeError, w)
  ∧ install_imports (Imports imports) additional_packages w
    = (Raised AttributeError, w).
Proof.
  intros Htable.
  assert (find_imports_to_install imports w = (Raised AttributeError, w)) as Hfind.
  { unfold find_imports_to_install, mbind at 1, M_bind at 1.
    by rewrite package_table_missing. }
  split; [done|]. by rewrite install_imports_names_run, Hfind.
Qed.

(** X8: the list [install_imports] returns is the list of the entries
    [find_imports_to_install] found followed by one entry for every
    additional package, in the order given, whether or not the package is
    already named in the list. *)
Theorem install_imports_returns_detected_then_additional
    imports additional_packages w to_install :
  (install_imports (Imports imports) additional_packages w).1
  = Returned (Some to_install) →
  ∃ detected,
    (find_imports_to_install imports w).1 = Returned detected
    ∧ to_install = detected ++ (additional_entry <$> additional_packages).
Proof.
  rewrite install_imports_names_run.
  destruct (find_imports_to_install imports w) as [[detected|e] w0]; [|done].
  destruct (install_entries _ w0) as [[[]|e] w1]; [|done].
  simpl. intros [= <-]. by exists detected.
Qed.

(** X9: when the import extractor fails on the source text, nothing is
    imported and nothing is installed, not even the additional packages:
    the world is left as it was, with None returned for a syntax error and
    the exception raised for any other failure. *)
Theorem install_imports_extractor_failure source additional_packages w e :
  find_imports source = Raised e →
  install_imports (SourceCode source) additional_packages w
  = (if issubclass e SyntaxError then Returned None else Raised e, w).
Proof.
  intros Hfind. unfold install_imports. rewrite Hfind.
  by destruct (issubclass e SyntaxError).
Qed.

(** X10: when every name imports and there are no additional packages,
    [install_imports] returns the empty list and leaves the world the
    imports left: micropip is neither imported nor loaded. *)
Theorem install_imports_nothing_missing imports w :
  is_Some (package_table w) →
  Forall (λ a, imported a.2 = true) (import_attempts imports w) →
  install_imports (Imports imports) [] w
  = (Returned (Some []), world_after_imports imports w).
Proof.
  intros [table Htable] Hall. rewrite install_imports_names_run.
  rewrite (find_imports_to_install_allowed imports w table); [|done|].
  - assert (filter (λ a : string * result unit, not_found a.2 = true)
              (import_attempts imports w) = []) as ->; [|done].
    induction Hall as [|[name r] attempts Hr _ IH]; [done|].
    rewrite filter_cons_False; [done|]. simpl in *.
    by destruct r.
  - eapply Forall_impl; [exact Hall|]. intros a Ha. by left.
Qed.
End InstallExtras.

Section InstallOrderExtras.
Context {host : Host}.

#[local] Abbreviation installed :=
  (λ a : string * result unit, a.2 = Returned tt).

(** X11: when installing a package fails, [install_imports] raises that
    exception instead of returning a list, and the packages after it in the
    list are not installed: the world is the one the failed install left. *)
Theorem install_failure_stops
    imports additional_packages w detected w0 w1 pre entry post e :
  find_imports_to_install imports w = (Returned detected, w0) →
  detected ++ (additional_entry <$> additional_packages)
  = pre ++ entry :: post →
  import_module "micropip" w0 = (Returned tt, w1) →
  Forall installed (install_attempts pre w1) →
  (micropip_install (package entry) (world_after_installs pre w1)).1
  = Raised e →
  install_imports (Imports imports) additional_packages w
  = (Raised e,
     (micropip_install (package entry) (world_after_installs pre w1)).2).
Proof.
  intros Hfind Hlist Hmicropip Hpre Hentry.
  rewrite install_imports_names_run, Hfind, Hlist.
  rewrite install_entries_run by by destruct pre.
  rewrite Hmicropip.
  by rewrite (install_loop_fails pre entry post w1 e).
Qed.

(** X12: with micropip importable, [install_imports] installs the package
    of every entry of the list it returns, in the order of the list, and
    does not load micropip: the world is the one those installs leave after
    the import of micropip. *)
Theorem install_imports_installs_in_order
    imports additional_packages w detected w0 w1 :
  find_imports_to_install imports w = (Returned detected, w0) →
  detected ++ (additional_entry <$> additional_packages) ≠ [] →
  import_module "micropip" w0 = (Returned tt, w1) →
  Forall installed
    (install_attempts
       (detected ++ (additional_entry <$> additional_packages)) w1) →
  install_imports (Imports imports) additional_packages w
  = (Returned (Some (detected ++ (additional_entry <$> additional_packages))),
     world_after_installs
       (detected ++ (additional_entry <$> additional_packages)) w1).
Proof.
  intros Hfind Hlist Hmicropip Hall.
  rewrite install_imports_names_run, Hfind.
  rewrite install_entries_run by done.
  rewrite Hmicropip.
  by rewrite install_loop_returns.
Qed.

(** X13: when importing micropip finds no module, [install_imports] loads
    the package micropip, imports it again, and then installs the package
    of every entry in the order of the list. *)
Theorem install_imports_loads_micropip
    imports additional_packages w detected w0 e w1 w2 w3 :
  find_imports_to_install imports w = (Returned detected, w0) →
  detected ++ (additional_entry <$> additional_packages) ≠ [] →
  import_module "micropip" w0 = (Raised e, w1) →
  issubclass e ModuleNotFoundError = true →
  loadPackage "micropip" w1 = (Returned tt, w2) →
  import_module "micropip" w2 = (Returned tt, w3) →
  Forall installed
    (install_attempts
       (detected ++ (additional_entry <$> additional_packages)) w3) →
  install_imports (Imports imports) additional_packages w
  = (Returned (Some (detected ++ (additional_entry <$> additional_packages))),
     world_after_installs
       (detected ++ (additional_entry <$> additional_packages)) w3).
Proof.
  intros Hfind Hlist Hmicropip Hsub Hload Hagain Hall.
  rewrite install_imports_names_run, Hfind.
  rewrite install_entries_run by done.
  rewrite Hmicropip, Hsub, Hload, Hagain.
  by rewrite install_loop_returns.
Qed.
End InstallOrderExtras.

Lemma package_table_missing_raises_witness :
  find_imports_to_install (host := tableless_host) [] ["sys"]
  = (Raised AttributeError, ["sys"])
  ∧ install_imports (host := tableless_host) (Imports []) ["foo"] ["sys"]
    = (Raised AttributeError, ["sys"]).
Proof.
  apply (package_table_missing_raises (host := tableless_host) [] ["foo"] ["sys"]).
  reflexivity.
Defined.

Lemma install_imports_returns_detected_then_additional_witness :
  ∃ detected,
    (find_imports_to_install (host := demo_host []) ["numpy"] []).1
    = Returned detected
    ∧ [ {| module := "numpy"; package := "numpy" |};
        {| module := "foo"; package := "foo" |};
        {| module := "numpy"; package := "numpy" |} ]
      = detected ++ (additional_entry <$> ["foo"; "numpy"]).
Proof.
  apply (install_imports_returns_detected_then_additional (host := demo_host [])
           ["numpy"] ["foo"; "numpy"] []).
  vm_compute. reflexivity.
Defined.

Lemma install_imports_extractor_failure_witness :
  install_imports (host := demo_host []) (SourceCode "import (") ["foo"] ["sys"]
  = (Returned None, ["sys"]).
Proof.
  apply (install_imports_extractor_failure (host := demo_host [])
           "import (" ["foo"] ["sys"] SyntaxError).
  reflexivity.
Defined.

Lemma install_imports_nothing_missing_witness :
  install_imports (host := demo_host []) (Imports ["sys"; "os"]) [] ["os"; "sys"]
  = (Returned (Some []), ["os"; "sys"]).
Proof.
  apply (install_imports_nothing_missing (host := demo_host [])
           ["sys"; "os"] ["os"; "sys"]).
  - by eexists.
  - repeat constructor.
Defined.

Lemma install_failure_stops_witness :
  install_imports (host := index_host ["foo"]) (Imports ["numpy"])
    ["foo"; "bar"] ["micropip"]
  = (Raised ValueError, ["micropip"; "numpy"]).
Proof.
  apply (install_failure_stops (host := index_host ["foo"])
           ["numpy"] ["foo"; "bar"] ["micropip"]
           [ {| module := "numpy"; package := "numpy" |} ]
           ["micropip"] ["micropip"]
           [ {| module := "numpy"; package := "numpy" |} ]
           {| module := "foo"; package := "foo" |}
           [ {| module := "bar"; package := "bar" |} ] ValueError).
  - vm_compute. reflexivity.
  - reflexivity.
  - reflexivity.
  - repeat constructor.
  - reflexivity.
Defined.

Lemma install_imports_installs_in_order_witness :
  install_imports (host := demo_host []) (Imports ["numpy"]) ["foo"]
    ["micropip"]
  = (Returned (Some [ {| module := "numpy"; package := "numpy" |};
                      {| module := "foo"; package := "foo" |} ]),
     ["micropip"; "numpy"; "foo"]).
Proof.
  apply (install_imports_installs_in_order (host := demo_host [])
           ["numpy"] ["foo"] ["micropip"]
           [ {| module := "numpy"; package := "numpy" |} ]
           ["micropip"] ["micropip"]).
  - vm_compute. reflexivity.
  - discriminate.
  - reflexivity.
  - repeat constructor.
Defined.

Lemma install_imports_loads_micropip_witness :
  install_imports (host := demo_host []) (Imports ["numpy"]) ["foo"] []
  = (Returned (Some [ {| module := "numpy"; package := "numpy" |};
                      {| module := "foo"; package := "foo" |} ]),
     ["micropip"; "numpy"; "foo"]).
Proof.
  apply (install_imports_loads_micropip (host := demo_host [])
           ["numpy"] ["foo"] []
           [ {| module := "numpy"; package := "numpy" |} ]
           [] ModuleNotFoundError [] ["micropip"] ["micropip"]).
  - vm_compute. reflexivity.
  - discriminate.
  - reflexivity.
  - reflexivity.
  - reflexivity.
  - reflexivity.
  - repeat constructor.
Defined.

(** ** Items lost to key collisions *)

Lemma filter_Forall_id {A : Type} (P : A → Prop) `{∀ x, Decision (P x)}
    (l : list A) :
  Forall P l → filter P l = l.
Proof.
  induction 1 as [|x l Hx _ IH]; [done|].
  by rewrite filter_cons_True, IH.
Qed.

Lemma first_occurrences_elem_of (names : list string) name :
  name ∈ first_occurrences names ↔ name ∈ names.
Proof.
  induction names as [|first rest IH]; simpl; [done|].
  rewrite !elem_of_cons, list_elem_of_filter, IH.
  destruct (decide (name = first)); tauto.
Qed.

Lemma first_occurrences_length (names : list string) :
  (length (first_occurrences names) ≤ length names)%nat.
Proof.
  induction names as [|first rest IH]; simpl; [done|].
  pose proof (length_filter (λ other, other ≠ first) (first_occurrences rest)).
  lia.
Qed.

Lemma first_occurrences_all (names : list string) :
  length (first_occurrences names) = length names ↔ NoDup names.
Proof.
  induction names as [|first rest IH]; simpl.
  - split; [constructor | done].
  - rewrite NoDup_cons, <- IH.
    pose proof (length_filter (λ other, other ≠ first) (first_occurrences rest)).
    pose proof (first_occurrences_length rest).
    split.
    + intros Hlen. split; [|lia].
      intros Hin. apply (proj2 (first_occurrences_elem_of _ _)) in Hin.
      pose proof (length_filter_lt (λ other, other ≠ first) _ first Hin
                    (λ Hne, Hne eq_refl)).
      lia.
    + intros [Hfresh Hlen]. rewrite filter_Forall_id; [lia|].
      apply Forall_forall. intros other Hin.
      apply (proj1 (first_occurrences_elem_of _ _)) in Hin.
      intros ->. by apply Hfresh.
Qed.

Section SerializerLoss.
Variable py_repr : pyobj → string.
Variable str_other : pyobj → string.

#[local] Abbreviation rs := (robust_serialize py_repr str_other).
#[local] Abbreviation str := (py_str str_other).

(** X14: the serialized dict never has more items than the input, and it
    has as many exactly when no two keys of the input have the same [str]:
    every collision loses an item. *)
Theorem robust_serialize_loses_items_on_collision items :
  ∃ out,
    robust_serialize py_repr str_other (PDict items) = PDict out
    ∧ (length out ≤ length items)%nat
    ∧ (length out = length items
       ↔ NoDup ((λ kv, py_str str_other kv.1) <$> items)).
Proof.
  exists (fold_left (λ d kv, dict_setitem d (str kv.1) (rs kv.2)) items []).
  split; [reflexivity|].
  pose proof (comprehension_key_order py_repr str_other items [] [] eq_refl)
    as Hkeys.
  rewrite filter_all in Hkeys by (intros name; apply not_elem_of_nil).
  apply (f_equal length) in Hkeys. simpl in Hkeys.
  rewrite !length_fmap in Hkeys. rewrite Hkeys.
  pose proof (first_occurrences_length ((λ kv, str kv.1) <$> items)) as Hle.
  pose proof (first_occurrences_all ((λ kv, str kv.1) <$> items)) as Hall.
  rewrite length_fmap in Hle, Hall. done.
Qed.
End SerializerLoss.
